(** * The 0-1 knapsack solver of KnapsackOpenHouse.tsx

    A shallow embedding of [solveKnapsack] (src/KnapsackOpenHouse.tsx,
    lines 29-55) and of the first test of [runKnapsackTests], with the
    properties the specification states about them.

    Modelling conventions.
    - A JavaScript [number] that holds an integer is a [Z]; the arithmetic of
      the solver ([+], [-], [<=], [Math.max]) is exact on them.  Engine limits
      (exactness of doubles beyond 2^53, the largest array length, memory)
      are outside the model.
    - What a table cell can hold is a [jsval]: a number, [NaN] or
      [undefined].  Reading an array outside its range yields [undefined],
      [undefined + v] is [NaN], [Math.max] of a [NaN] is [NaN], and [!==]
      treats [NaN] as different from everything.
    - An array is a [list]; [dp] is a list of rows.  Each row is built by its
      own call of the callback of [Array.from], so no two rows alias.
    - Exceptions are an error monad [result]: [Array(len)] throws a
      [RangeError] on a negative length, and reading a property of
      [undefined] throws a [TypeError].
    - The [Set] of chosen ids is the list of its elements in insertion
      order, without duplicates. *)

From Stdlib Require Import ZArith String List Lia.
From stdpp Require Import base list strings.

Local Open Scope Z_scope.

(** ** Values and exceptions *)

Inductive jsval : Type :=
  | JNum (z : Z)
  | JNaN
  | JUndefined.

(** [a + b] where [b] is a number. *)
Definition js_add (a b : jsval) : jsval :=
  match a, b with
  | JNum x, JNum y => JNum (x + y)
  | _, _ => JNaN
  end.

(** [Math.max(a, b)]. *)
Definition js_max (a b : jsval) : jsval :=
  match a, b with
  | JNum x, JNum y => JNum (Z.max x y)
  | _, _ => JNaN
  end.

(** [a !== b]. *)
Definition js_strict_neq (a b : jsval) : bool :=
  match a, b with
  | JNum x, JNum y => negb (x =? y)
  | JUndefined, JUndefined => false
  | _, _ => true
  end.

Inductive error : Type :=
  | RangeError     (* Array(len) with an invalid length *)
  | TypeError      (* a property read on undefined *)
  | OutOfBounds.   (* raised by the bounds-checked reading of the code only *)

Inductive result (A : Type) : Type :=
  | Ok (a : A)
  | Throw (e : error).
Arguments Ok {A} a.
Arguments Throw {A} e.

Definition bind {A B : Type} (m : result A) (k : A -> result B) : result B :=
  match m with
  | Ok a => k a
  | Throw e => Throw e
  end.

Notation "'let*' x := m 'in' k" := (bind m (fun x => k))
  (at level 10, x binder, m at level 100, k at level 200, only parsing).

(** ** Data *)

Record Item : Type := mkItem {
  id : string;
  name : string;
  weight : Z;
  value : Z;
  emoji : string;
}.

Abbreviation row := (list jsval).
Abbreviation dptable := (list (list jsval)).

Record Solution : Type := mkSolution {
  bestValue : jsval;
  chosenIds : list string;
  table : dptable;
}.

(** ** Loops *)

(** [for (let i = lo; ...; i++) body], run for [k] iterations. *)
Fixpoint for_up {St : Type} (k : nat) (i : nat)
    (body : nat -> St -> result St) (s : St) : result St :=
  match k with
  | O => Ok s
  | S k' => let* s' := body i s in for_up k' (S i) body s'
  end.

(** [for (let i = hi; ...; i--) body], run for [k] iterations. *)
Fixpoint for_down {St : Type} (k : nat) (i : nat)
    (body : nat -> St -> result St) (s : St) : result St :=
  match k with
  | O => Ok s
  | S k' => let* s' := body i s in for_down k' (Nat.pred i) body s'
  end.

(** ** Arrays *)

(** [Array(len).fill(x)]. *)
Definition Array_fill (len : Z) (x : jsval) : result row :=
  if len <? 0 then Throw RangeError
  else Ok (replicate (Z.to_nat len) x).

(** [a[c]] as JavaScript reads it: [undefined] outside the array. *)
Definition js_get (a : row) (c : Z) : jsval :=
  if c <? 0 then JUndefined
  else default JUndefined (a !! Z.to_nat c).

Definition in_range (a : row) (c : Z) : bool :=
  (0 <=? c) && (c <? Z.of_nat (length a)).

(** [new Set(l)]: the elements of [l] in order of first occurrence. *)
Fixpoint Set_add_all (acc l : list string) : list string :=
  match l with
  | [] => acc
  | x :: l' =>
      Set_add_all (if bool_decide (x ∈ acc) then acc else acc ++ [x]) l'
  end.

Definition new_Set (l : list string) : list string := Set_add_all [] l.

(** ** The solver

    The section variable [strict] selects how an access outside a row is
    treated: [false] is JavaScript (a read yields [undefined], a write
    lengthens the row), [true] is the bounds-checked reading of the same code,
    in which such an access raises [OutOfBounds]. *)

Section Solver.

Variable strict : bool.

(** [dp[i]], on which a property is then read or written. *)
Definition get_row (dp : dptable) (i : nat) : result row :=
  match dp !! i with
  | Some r => Ok r
  | None => Throw TypeError
  end.

(** [dp[i][c]] as an expression. *)
Definition read (dp : dptable) (i : nat) (c : Z) : result jsval :=
  let* r := get_row dp i in
  if in_range r c then Ok (js_get r c)
  else if strict then Throw OutOfBounds
  else Ok (js_get r c).

(** [dp[i][c] = x]; the column is a loop counter that starts at 0. *)
Definition write (dp : dptable) (i : nat) (c : nat) (x : jsval) : result dptable :=
  let* r := get_row dp i in
  if in_range r (Z.of_nat c) then Ok (<[i := <[c := x]> r]> dp)
  else if strict then Throw OutOfBounds
  else Ok (<[i := r ++ replicate (c - length r)%nat JUndefined ++ [x]]> dp).

(** [items[i]], of which a field is then read. *)
Definition item_at (items : list Item) (i : nat) : result Item :=
  match items !! i with
  | Some it => Ok it
  | None => Throw TypeError
  end.

(** Lines 36-40: the body of the loop over [c]. *)
Definition fill_cell (w v : Z) (i : nat) (c : nat) (dp : dptable) : result dptable :=
  if w <=? Z.of_nat c then
    let* a := read dp (i - 1) (Z.of_nat c) in
    let* b := read dp (i - 1) (Z.of_nat c - w) in
    write dp i c (js_max a (js_add b (JNum v)))
  else
    let* a := read dp (i - 1) (Z.of_nat c) in
    write dp i c a.

(** Lines 34-41: the body of the loop over [i]. *)
Definition fill_row (items : list Item) (capacity : Z) (i : nat) (dp : dptable)
    : result dptable :=
  let* it := item_at items (i - 1) in
  for_up (Z.to_nat (capacity + 1)) 0 (fill_cell (weight it) (value it) i) dp.

(** Lines 48-51: the body of the reconstruction loop; the state is the
    residual capacity [c] and the array [chosen]. *)
Definition backtrack (items : list Item) (dp : dptable) (i : nat)
    (s : Z * list string) : result (Z * list string) :=
  let '(c, chosen) := s in
  let* a := read dp i c in
  let* b := read dp (i - 1) c in
  if js_strict_neq a b then
    let* it := item_at items (i - 1) in
    let* it' := item_at items (i - 1) in
    Ok (c - weight it', chosen ++ [id it])
  else Ok (c, chosen).

Definition solve (items : list Item) (capacity : Z) : result Solution :=
  let n := length items in
  let* zeros := Array_fill (capacity + 1) (JNum 0) in
  let dp := replicate (n + 1) zeros in
  let* dp := for_up n 1 (fill_row items capacity) dp in
  let* '(c, chosen) := for_down n n (backtrack items dp) (capacity, []) in
  let chosen := rev chosen in
  let* best := read dp n capacity in
  Ok {| bestValue := best; chosenIds := new_Set chosen; table := dp |}.

End Solver.

(** [solveKnapsack(items, capacity)]. *)
Definition solveKnapsack : list Item -> Z -> result Solution := solve false.


(** ** The first test of [runKnapsackTests] *)

Definition items1 : list Item :=
  [ mkItem "a" "A" 1 1 "🧪";
    mkItem "b" "B" 2 6 "💎";
    mkItem "c" "C" 5 18 "🚀";
    mkItem "d" "D" 6 22 "🎮" ].

(** [items.find((i) => i.id === x)]. *)
Definition find_by_id (items : list Item) (x : string) : option Item :=
  List.find (fun it => bool_decide (id it = x)) items.

(** Lines 156-159: [Array.from(chosenIds).reduce(...)], the sum of the values
    of the items found by the chosen ids. *)
Definition sumChosen (items : list Item) (ids : list string) : result Z :=
  fold_left
    (fun acc x =>
       let* a := acc in
       match find_by_id items x with
       | Some it => Ok (a + value it)
       | None => Throw TypeError
       end)
    ids (Ok 0).


(** ** The table and the walk as functions

    What the two phases compute, written without state: every row is a
    function of the row above it, and the reconstruction is a walk over a
    finished table.  [solve_eq] below shows that the loops compute exactly
    these. *)

(** The value stored at column [c] of the row of item [it], given the row
    [prev] above it (lines 36-40). *)
Definition cell_val (it : Item) (prev : row) (c : Z) : jsval :=
  if weight it <=? c then
    js_max (js_get prev c) (js_add (js_get prev (c - weight it)) (JNum (value it)))
  else js_get prev c.

Definition next_row (it : Item) (prev : row) : row :=
  map (fun c : nat => cell_val it prev (Z.of_nat c)) (seq 0 (length prev)).

Definition zero_row (capacity : Z) : row :=
  replicate (Z.to_nat (capacity + 1)) (JNum 0).

Definition row_at (items : list Item) (capacity : Z) (i : nat) : row :=
  fold_left (fun prev it => next_row it prev) (take i items) (zero_row capacity).

Definition table_of (items : list Item) (capacity : Z) : dptable :=
  map (row_at items capacity) (seq 0 (length items + 1)).

(** [dp[i][c]] on a finished table. *)
Definition cell (dp : dptable) (i : nat) (c : Z) : jsval :=
  js_get (default [] (dp !! i)) c.

(** One step of the walk at row [i]: the state is the residual capacity and
    the items included so far, latest first in the list's order of pushes. *)
Definition back_step (items : list Item) (dp : dptable) (i : nat)
    (s : Z * list Item) : Z * list Item :=
  if js_strict_neq (cell dp i (fst s)) (cell dp (i - 1) (fst s)) then
    match items !! (i - 1)%nat with
    | Some it => (fst s - weight it, snd s ++ [it])
    | None => s
    end
  else s.

(** The state of the walk after [k] steps from row [n] and capacity
    [capacity]: rows [n], [n-1], ..., [n-k+1] have been visited. *)
Fixpoint walk (items : list Item) (dp : dptable) (n : nat) (capacity : Z)
    (k : nat) : Z * list Item :=
  match k with
  | O => (capacity, [])
  | S k' => back_step items dp (n - k') (walk items dp n capacity k')
  end.

(** The residual capacity with which the walk arrives at row [i]. *)
Definition residual (items : list Item) (dp : dptable) (capacity : Z) (i : nat) : Z :=
  fst (walk items dp (length items) capacity (length items - i)).

(** The items the walk includes, in input order. *)
Definition picked (items : list Item) (dp : dptable) (capacity : Z) : list Item :=
  rev (snd (walk items dp (length items) capacity (length items))).

(** The state of the loop that corresponds to a state of the walk. *)
Definition ids_of (s : Z * list Item) : Z * list string := (fst s, map id (snd s)).



Definition solution_of (items : list Item) (capacity : Z) : Solution :=
  let dp := table_of items capacity in
  {| bestValue := cell dp (length items) capacity;
     chosenIds := new_Set (map id (picked items dp capacity));
     table := dp |}.

(** The accesses of a run stay inside the rows: the columns [c - w] that the
    fill phase reads and the residual capacities of the walk. *)
Definition accesses_in_bounds (items : list Item) (capacity : Z) : Prop :=
  0 <= capacity /\
  Forall (fun it => 0 <= weight it) items /\
  forall i, (1 <= i <= length items)%nat ->
    0 <= residual items (table_of items capacity) capacity i <= capacity.

(** ** Specification side: subsets and optima *)

Definition total_weight (S : list Item) : Z := foldr (fun it acc => weight it + acc) 0 S.
Definition total_value (S : list Item) : Z := foldr (fun it acc => value it + acc) 0 S.



(** The items designated by a set of ids. *)
Definition selected (ids : list string) (items : list Item) : list Item :=
  filter (fun it => id it ∈ ids) items.





(** Items with a negative weight, a negative value and a repeated id. *)
Definition items_out_of_contract : list Item :=
  [ mkItem "x" "X" (-1) 1 "💎";
    mkItem "x" "X" 2 (-3) "💎" ].


(** ** The component's backpack (lines 170 and 188-228)

    [pickedIds] is a [Set] of strings, a list without duplicates in insertion
    order as [chosenIds] is.  A drop handler is a function from the text
    carried by the drag event and the current [pickedIds] to the next
    [pickedIds]. *)

(** [s.add(x)] and [s.delete(x)]. *)
Definition Set_add (s : list string) (x : string) : list string :=
  if bool_decide (x ∈ s) then s else s ++ [x].

Definition Set_delete (s : list string) (x : string) : list string :=
  filter (fun y => y <> x) s.

(** Lines 188-191:
    [items.filter((i) => pickedIds.has(i.id)).reduce((s, it) => s + it.weight, 0)]. *)
Definition backpackWeight (items : list Item) (pickedIds : list string) : Z :=
  fold_left (fun s it => s + weight it)
    (filter (fun i => id i ∈ pickedIds) items) 0.

(** Lines 192-195, the same with [it.value]. *)
Definition backpackValue (items : list Item) (pickedIds : list string) : Z :=
  fold_left (fun s it => s + value it)
    (filter (fun i => id i ∈ pickedIds) items) 0.



Section Handlers.

(** [String.prototype.trim], a function of the engine. *)
Variable trim : string -> string.

(** [(e.dataTransfer.getData("text/plain") || "").trim()], where [data] is
    what [getData] returns. *)
Definition dropped_id (data : string) : string :=
  trim (if bool_decide (data = EmptyString) then EmptyString else data).

(** Lines 212-219. *)
Definition handleDropToBackpack (data : string) (pickedIds : list string)
    : list string :=
  let x := dropped_id data in
  if bool_decide (x = EmptyString) then pickedIds
  else Set_add (new_Set pickedIds) x.

(** Lines 221-228. *)
Definition handleDropToShelf (data : string) (pickedIds : list string)
    : list string :=
  let x := dropped_id data in
  if bool_decide (x = EmptyString) then pickedIds
  else Set_delete (new_Set pickedIds) x.

End Handlers.

(** Settles a decidable side condition on literal data by evaluation. *)
Ltac by_evaluation := refine (bool_decide_unpack _ _); vm_compute; exact I.

(** ** Loop rules *)

Lemma for_up_rule {St : Type} (P : nat -> St -> Prop)
    (body : nat -> St -> result St) (k i : nat) (s : St) :
  P i s ->
  (forall j t, (i <= j < i + k)%nat -> P j t ->
     exists t', body j t = Ok t' /\ P (S j) t') ->
  exists s', for_up k i body s = Ok s' /\ P (i + k)%nat s'.
Proof.
  revert i s. induction k as [|k IH]; intros i s Hs Hbody; simpl.
  - exists s. rewrite Nat.add_0_r. auto.
  - destruct (Hbody i s) as (t & Ht & HP); [lia | assumption |].
    rewrite Ht. simpl.
    destruct (IH (S i) t HP) as (s' & Hs' & HP').
    + intros j u Hj Hu. apply Hbody; [lia | assumption].
    + exists s'. split; [assumption|].
      replace (i + S k)%nat with (S i + k)%nat by lia. assumption.
Qed.

(** ** Reads and writes that succeed *)

Lemma in_range_spec (r : row) (c : Z) :
  in_range r c = true <-> 0 <= c < Z.of_nat (length r).
Proof. unfold in_range. rewrite andb_true_iff, Z.leb_le, Z.ltb_lt. tauto. Qed.

Lemma read_ok (strict : bool) (dp : dptable) (i : nat) (c : Z) (r : row) :
  dp !! i = Some r ->
  (strict = true -> 0 <= c < Z.of_nat (length r)) ->
  read strict dp i c = Ok (js_get r c).
Proof.
  intros Hr Hc. unfold read, get_row. rewrite Hr. simpl.
  destruct (in_range r c) eqn:E; [reflexivity|].
  destruct strict; [|reflexivity].
  apply in_range_spec in Hc; [congruence | reflexivity].
Qed.

Lemma write_ok (strict : bool) (dp : dptable) (i c : nat) (x : jsval) (r : row) :
  dp !! i = Some r ->
  (c < length r)%nat ->
  write strict dp i c x = Ok (<[i := <[c := x]> r]> dp).
Proof.
  intros Hr Hc. unfold write, get_row. rewrite Hr. simpl.
  replace (in_range r (Z.of_nat c)) with true; [reflexivity|].
  symmetry. apply in_range_spec. lia.
Qed.


(** ** Rows *)

Lemma length_next_row (it : Item) (prev : row) :
  length (next_row it prev) = length prev.
Proof. unfold next_row. rewrite length_map, length_seq. reflexivity. Qed.

Lemma length_zero_row (capacity : Z) :
  length (zero_row capacity) = Z.to_nat (capacity + 1).
Proof. apply length_replicate. Qed.

Lemma row_at_0 (items : list Item) (capacity : Z) :
  row_at items capacity 0 = zero_row capacity.
Proof. unfold row_at. rewrite take_0. reflexivity. Qed.

Lemma row_at_S (items : list Item) (capacity : Z) (i : nat) (it : Item) :
  items !! i = Some it ->
  row_at items capacity (S i) = next_row it (row_at items capacity i).
Proof.
  intros H. unfold row_at. rewrite (take_S_r _ _ _ H), fold_left_app. reflexivity.
Qed.

Lemma length_row_at (items : list Item) (capacity : Z) (i : nat) :
  length (row_at items capacity i) = Z.to_nat (capacity + 1).
Proof.
  unfold row_at. generalize (length_zero_row capacity).
  generalize (zero_row capacity). generalize (take i items).
  intros l. induction l as [|it l IH]; intros r Hr; simpl; [assumption|].
  apply IH. rewrite length_next_row. assumption.
Qed.

Lemma next_row_lookup (it : Item) (prev : row) (c : nat) :
  (c < length prev)%nat ->
  next_row it prev !! c = Some (cell_val it prev (Z.of_nat c)).
Proof.
  intros H. unfold next_row. rewrite list_lookup_fmap.
  rewrite lookup_seq_lt by assumption. reflexivity.
Qed.

Lemma table_of_lookup (items : list Item) (capacity : Z) (i : nat) :
  (i <= length items)%nat ->
  table_of items capacity !! i = Some (row_at items capacity i).
Proof.
  intros H. unfold table_of. rewrite list_lookup_fmap.
  rewrite lookup_seq_lt by lia. reflexivity.
Qed.

Lemma length_table_of (items : list Item) (capacity : Z) :
  length (table_of items capacity) = (length items + 1)%nat.
Proof. unfold table_of. rewrite length_map, length_seq. reflexivity. Qed.

Lemma cell_table_of (items : list Item) (capacity : Z) (i : nat) (c : Z) :
  (i <= length items)%nat ->
  cell (table_of items capacity) i c = js_get (row_at items capacity i) c.
Proof. intros H. unfold cell. rewrite table_of_lookup by assumption. reflexivity. Qed.

(** ** The fill phase computes [table_of] *)

Section Refinement.

Variable strict : bool.

Lemma fill_cell_ok (it : Item) (i c : nat) (dp : dptable) (prev r : row) :
  (strict = true -> 0 <= weight it) ->
  (1 <= i)%nat ->
  dp !! (i - 1)%nat = Some prev ->
  dp !! i = Some r ->
  length r = length prev ->
  (c < length prev)%nat ->
  fill_cell strict (weight it) (value it) i c dp =
  Ok (<[i := <[c := cell_val it prev (Z.of_nat c)]> r]> dp).
Proof.
  intros Hw Hi Hprev Hr Hlen Hc. unfold fill_cell, cell_val.
  destruct (Z.leb_spec (weight it) (Z.of_nat c)) as [Hle|Hgt].
  - rewrite (read_ok strict dp (i - 1) (Z.of_nat c) prev) by (auto; lia).
    simpl.
    rewrite (read_ok strict dp (i - 1) (Z.of_nat c - weight it) prev)
      by (auto; intros Hs; specialize (Hw Hs); lia).
    simpl. apply write_ok; [assumption | lia].
  - rewrite (read_ok strict dp (i - 1) (Z.of_nat c) prev) by (auto; lia).
    simpl. apply write_ok; [assumption | lia].
Qed.

Lemma fill_row_ok (items : list Item) (capacity : Z) (i : nat) (it : Item)
    (dp : dptable) (prev cur : row) :
  (strict = true -> 0 <= weight it) ->
  (1 <= i)%nat ->
  items !! (i - 1)%nat = Some it ->
  dp !! (i - 1)%nat = Some prev ->
  dp !! i = Some cur ->
  length prev = Z.to_nat (capacity + 1) ->
  length cur = Z.to_nat (capacity + 1) ->
  fill_row strict items capacity i dp = Ok (<[i := next_row it prev]> dp).
Proof.
  intros Hw Hi Hit Hprev Hcur Lprev Lcur.
  unfold fill_row, item_at. rewrite Hit. simpl.
  pose (P := fun (c : nat) (d : dptable) =>
    exists r : row, d = <[i := r]> dp /\ length r = length prev /\
      forall c', (c' < c)%nat -> r !! c' = Some (cell_val it prev (Z.of_nat c'))).
  destruct (for_up_rule P (fill_cell strict (weight it) (value it) i)
              (Z.to_nat (capacity + 1)) 0 dp) as (d & Hd & r & -> & Lr & Hcells).
  - exists cur. split; [symmetry; apply list_insert_id; assumption|].
    split; [congruence | intros c' Hc'; lia].
  - intros c d Hc (r & -> & Lr & Hcells).
    assert (Hlt : (i < length dp)%nat) by (apply lookup_lt_is_Some; eauto).
    rewrite (fill_cell_ok it i c (<[i := r]> dp) prev r); auto; try lia.
    + eexists. split; [reflexivity|].
      exists (<[c := cell_val it prev (Z.of_nat c)]> r).
      split; [apply list_insert_insert_eq|].
      split; [rewrite length_insert; assumption|].
      intros c' Hc'. destruct (decide (c' = c)) as [->|Hne].
      * apply list_lookup_insert_eq. lia.
      * rewrite list_lookup_insert_ne by auto. apply Hcells. lia.
    + rewrite list_lookup_insert_ne by lia. assumption.
    + apply list_lookup_insert_eq. assumption.
  - rewrite Hd. f_equal. f_equal. apply list_eq. intros c.
    destruct (decide (c < length prev)%nat) as [Hc|Hc].
    + rewrite next_row_lookup by assumption. apply Hcells. simpl. lia.
    + rewrite !lookup_ge_None_2; [reflexivity| |]; rewrite ?length_next_row; lia.
Qed.

Lemma fill_ok (items : list Item) (capacity : Z) :
  (strict = true -> Forall (fun it => 0 <= weight it) items) ->
  for_up (length items) 1 (fill_row strict items capacity)
    (replicate (length items + 1) (zero_row capacity))
  = Ok (table_of items capacity).
Proof.
  intros Hw. set (n := length items).
  pose (P := fun (i : nat) (d : dptable) =>
    length d = (n + 1)%nat /\
    (forall j, (j < i)%nat -> (j <= n)%nat -> d !! j = Some (row_at items capacity j)) /\
    (forall j, (i <= j <= n)%nat -> d !! j = Some (zero_row capacity))).
  destruct (for_up_rule P (fill_row strict items capacity) n 1
              (replicate (n + 1) (zero_row capacity))) as (d & Hd & Ld & Hrows & _).
  - split; [apply length_replicate|]. split.
    + intros j Hj _. assert (j = 0)%nat as -> by lia.
      rewrite row_at_0. apply lookup_replicate_2. lia.
    + intros j Hj. apply lookup_replicate_2. lia.
  - intros i d Hi (Ld & Hrows & Hzero).
    destruct (lookup_lt_is_Some_2 items (i - 1)) as [it Hit]; [fold n; lia|].
    rewrite (fill_row_ok items capacity i it d (row_at items capacity (i - 1))
               (zero_row capacity)).
    + eexists. split; [reflexivity|]. split; [rewrite length_insert; assumption|].
      split.
      * intros j Hj Hjn. destruct (decide (j = i)) as [->|Hne].
        -- rewrite list_lookup_insert_eq by lia. f_equal.
           replace i with (S (i - 1)) at 2 by lia. symmetry.
           apply row_at_S. assumption.
        -- rewrite list_lookup_insert_ne by auto. apply Hrows; lia.
      * intros j Hj. rewrite list_lookup_insert_ne by lia. apply Hzero. lia.
    + intros Hs. specialize (Hw Hs). rewrite Forall_forall in Hw.
      apply Hw. eapply list_elem_of_lookup_2. eassumption.
    + lia.
    + assumption.
    + apply Hrows; lia.
    + apply Hzero. lia.
    + apply length_row_at.
    + apply length_zero_row.
  - rewrite Hd. f_equal. apply list_eq. intros j.
    destruct (decide (j <= n)%nat) as [Hj|Hj].
    + rewrite table_of_lookup by assumption. apply Hrows; lia.
    + rewrite !lookup_ge_None_2; [reflexivity| |]; rewrite ?length_table_of; fold n; lia.
Qed.

End Refinement.

(** ** The reconstruction loop computes [walk] *)

Section Reconstruction.

Variable strict : bool.

Lemma read_table_of (items : list Item) (capacity : Z) (i : nat) (c : Z) :
  (i <= length items)%nat ->
  (strict = true -> 0 <= c <= capacity) ->
  read strict (table_of items capacity) i c = Ok (cell (table_of items capacity) i c).
Proof.
  intros Hi Hc. rewrite cell_table_of by assumption.
  apply read_ok; [apply table_of_lookup; assumption|].
  intros Hs. rewrite length_row_at. specialize (Hc Hs). lia.
Qed.

Lemma backtrack_ok (items : list Item) (capacity : Z) (i : nat) (s : Z * list Item) :
  (1 <= i <= length items)%nat ->
  (strict = true -> 0 <= fst s <= capacity) ->
  backtrack strict items (table_of items capacity) i (ids_of s) =
  Ok (ids_of (back_step items (table_of items capacity) i s)).
Proof.
  intros Hi Hc. destruct s as [c S0]. simpl in Hc.
  unfold backtrack, back_step, ids_of. simpl.
  rewrite !read_table_of by (auto; lia). simpl.
  destruct (js_strict_neq _ _); [|reflexivity].
  destruct (lookup_lt_is_Some_2 items (i - 1)) as [it Hit]; [lia|].
  unfold item_at. rewrite Hit. simpl. rewrite map_app. reflexivity.
Qed.

Lemma reconstruct_ok (items : list Item) (capacity : Z) (k j : nat) :
  let n := length items in
  let dp := table_of items capacity in
  (strict = true -> forall i, (1 <= i <= n)%nat ->
     0 <= residual items dp capacity i <= capacity) ->
  (j + k <= n)%nat ->
  for_down k (n - j) (backtrack strict items dp) (ids_of (walk items dp n capacity j))
  = Ok (ids_of (walk items dp n capacity (j + k))).
Proof.
  intros n dp Hres. revert j. induction k as [|k IH]; intros j Hjk; cbn [for_down].
  - rewrite Nat.add_0_r. reflexivity.
  - subst dp. rewrite backtrack_ok.
    + cbn [bind]. replace (Nat.pred (n - j)) with (n - S j)%nat by lia.
      replace (j + S k)%nat with (S j + k)%nat by lia.
      rewrite <- IH by lia. reflexivity.
    + fold n. lia.
    + intros Hs. specialize (Hres Hs (n - j)%nat). unfold residual in Hres.
      fold n in Hres. replace (n - (n - j))%nat with j in Hres by lia.
      apply Hres. lia.
Qed.

(** The loops of [solve] compute [solution_of], whenever the array can be
    allocated and, in the bounds-checked reading, the accesses stay inside
    the rows. *)
Lemma solve_eq (items : list Item) (capacity : Z) :
  -1 <= capacity ->
  (strict = true -> accesses_in_bounds items capacity) ->
  solve strict items capacity = Ok (solution_of items capacity).
Proof.
  intros Hcap Hsafe. unfold solve, Array_fill.
  destruct (Z.ltb_spec (capacity + 1) 0) as [?|_]; [lia|]. simpl.
  fold (zero_row capacity). rewrite fill_ok by (intros Hs; apply Hsafe, Hs).
  simpl.
  pose proof (reconstruct_ok items capacity (length items) 0) as Hwalk.
  simpl in Hwalk. rewrite Nat.sub_0_r in Hwalk.
  change (capacity, @nil string) with (ids_of (capacity, @nil Item)).
  rewrite Hwalk; [|intros Hs; apply Hsafe, Hs|lia]. simpl.
  rewrite read_table_of; [|lia|].
  - simpl. unfold solution_of, picked. rewrite map_rev. reflexivity.
  - intros Hs. destruct (Hsafe Hs) as (H0 & _). lia.
Qed.


End Reconstruction.

(** ** Selections and their totals *)








(** ** Optima of a list extended by one item *)



(** ** The recurrence computes the optimum *)

Section Optimality.

Variable items : list Item.
Hypothesis weights_nonneg : Forall (fun it => 0 <= weight it) items.






End Optimality.

(** ** The walk under the preconditions *)

Section Walk.

Variable items : list Item.
Variable capacity : Z.
Hypothesis weights_nonneg : Forall (fun it => 0 <= weight it) items.
Hypothesis capacity_nonneg : 0 <= capacity.

Let n := length items.
Let dp := table_of items capacity.









End Walk.

(** ** Sets of ids *)

Lemma elem_of_Set_add_all (x : string) (acc l : list string) :
  x ∈ Set_add_all acc l <-> x ∈ acc \/ x ∈ l.
Proof.
  revert acc. induction l as [|y l IH]; intros acc; simpl.
  - rewrite elem_of_nil. tauto.
  - rewrite IH, elem_of_cons. case_bool_decide as Hy.
    + split; [tauto|]. intros [?|[->|?]]; auto.
    + rewrite elem_of_app, list_elem_of_singleton. tauto.
Qed.

Lemma elem_of_new_Set (x : string) (l : list string) : x ∈ new_Set l <-> x ∈ l.
Proof. unfold new_Set. rewrite elem_of_Set_add_all, elem_of_nil. tauto. Qed.

Lemma selected_ext (ids1 ids2 : list string) (l : list Item) :
  (forall it, it ∈ l -> id it ∈ ids1 <-> id it ∈ ids2) ->
  selected ids1 l = selected ids2 l.
Proof.
  unfold selected. induction l as [|x l IH]; intros H; [reflexivity|].
  rewrite !filter_cons.
  assert (Hx : id x ∈ ids1 <-> id x ∈ ids2) by (apply H; left).
  rewrite IH by (intros it Hit; apply H; right; assumption).
  destruct (decide (id x ∈ ids1)), (decide (id x ∈ ids2)); tauto.
Qed.



Lemma Set_add_all_NoDup (acc l : list string) :
  NoDup (acc ++ l) -> Set_add_all acc l = acc ++ l.
Proof.
  revert acc. induction l as [|x l IH]; intros acc Hnd; simpl.
  - rewrite app_nil_r. reflexivity.
  - apply NoDup_app in Hnd as Hnd'. destruct Hnd' as (_ & Hdisj & _).
    rewrite bool_decide_eq_false_2.
    + rewrite IH; rewrite <- app_assoc; [reflexivity | exact Hnd].
    + intros Hx. apply (Hdisj x Hx). left.
Qed.

Lemma new_Set_NoDup (l : list string) : NoDup l -> new_Set l = l.
Proof. intros H. unfold new_Set. rewrite Set_add_all_NoDup; [reflexivity | exact H]. Qed.


(** ** The shape of the walk, on any table *)

Section WalkShape.

Variable items : list Item.
Variable dp : dptable.
Variable capacity : Z.

Let n := length items.






End WalkShape.

(** ** The solver under the preconditions *)





(** ** The claims *)













(** ** Capacity zero *)






(** ** The test scenario *)

(** C8. For the items A(1,1), B(2,6), C(5,18), D(6,22) and capacity 7,
    [solveKnapsack] returns [bestValue] 24, and the values of the items found
    by the ids in [chosenIds] sum to 24 (tests T1 and T4). *)
Theorem solveKnapsack_test_scenario :
  exists sol,
    solveKnapsack items1 7 = Ok sol /\
    bestValue sol = JNum 24 /\
    sumChosen items1 (chosenIds sol) = Ok 24 /\
    total_value (selected (chosenIds sol) items1) = 24.
Proof. eexists. vm_compute. repeat split. Qed.

(** Tests T2 and T3: capacity zero, and an item heavier than the capacity. *)
Example solveKnapsack_test_T2 :
  exists sol, solveKnapsack items1 0 = Ok sol /\ bestValue sol = JNum 0.
Proof. eexists. vm_compute. split; reflexivity. Qed.

Example solveKnapsack_test_T3 :
  solveKnapsack [mkItem "x" "X" 10 100 "💎"] 5 =
  Ok {| bestValue := JNum 0; chosenIds := [];
        table := [replicate 6 (JNum 0); replicate 6 (JNum 0)] |}.
Proof. vm_compute. reflexivity. Qed.

(** Two optimal selections: the walk leaves out the later item. *)
Example solveKnapsack_tie :
  solveKnapsack [mkItem "a" "A" 1 1 "🧪"; mkItem "b" "B" 1 1 "💎"] 1 =
  Ok {| bestValue := JNum 1; chosenIds := ["a"%string];
        table := [ [JNum 0; JNum 0]; [JNum 0; JNum 1]; [JNum 0; JNum 1] ] |}.
Proof. vm_compute. reflexivity. Qed.

(** ** Absence of errors *)

(** In the bounds-checked reading a read that returns was inside its row. *)
Lemma read_checked_in_bounds (dp : dptable) (i : nat) (c : Z) (x : jsval) :
  read true dp i c = Ok x ->
  exists r, dp !! i = Some r /\ 0 <= c < Z.of_nat (length r) /\
            r !! Z.to_nat c = Some x.
Proof.
  unfold read, get_row. destruct (dp !! i) as [r|]; [|discriminate]. simpl.
  destruct (in_range r c) eqn:E; [|discriminate].
  apply in_range_spec in E. intros [= <-]. exists r.
  split; [reflexivity|]. split; [exact E|].
  unfold js_get. destruct (Z.ltb_spec c 0); [lia|].
  destruct (lookup_lt_is_Some_2 r (Z.to_nat c)) as [y Hy]; [lia|].
  rewrite Hy. reflexivity.
Qed.

(** In the bounds-checked reading a write that returns was inside its row. *)
Lemma write_checked_in_bounds (dp dp' : dptable) (i c : nat) (x : jsval) :
  write true dp i c x = Ok dp' ->
  exists r, dp !! i = Some r /\ (c < length r)%nat.
Proof.
  unfold write, get_row. destruct (dp !! i) as [r|]; [|discriminate]. simpl.
  destruct (in_range r (Z.of_nat c)) eqn:E; [|discriminate].
  apply in_range_spec in E. intros _. exists r. split; [reflexivity | lia].
Qed.



(** ** Inputs outside the contract *)

Example solve_out_of_contract :
  solveKnapsack items_out_of_contract 2 =
  Ok {| bestValue := JNaN; chosenIds := ["x"%string];
        table := [ [JNum 0; JNum 0; JNum 0];
                   [JNum 1; JNum 1; JNaN];
                   [JNum 1; JNum 1; JNaN] ] |}.
Proof. vm_compute. reflexivity. Qed.



(** * Further properties of the code *)

(** ** Edge cases of the solver *)

Lemma walk_no_change (items : list Item) (dp : dptable) (n : nat) (capacity : Z) :
  (forall i, (1 <= i <= n)%nat ->
     js_strict_neq (cell dp i capacity) (cell dp (i - 1) capacity) = false) ->
  forall j, (j <= n)%nat -> walk items dp n capacity j = (capacity, []).
Proof.
  intros Hsame j. induction j as [|j IH]; intros Hj; [reflexivity|].
  cbn [walk]. rewrite IH by lia. unfold back_step. cbn [fst snd].
  rewrite Hsame by lia. reflexivity.
Qed.



Lemma table_of_rows (items : list Item) (capacity : Z) (r : list jsval) :
  (forall i, (i <= length items)%nat -> row_at items capacity i = r) ->
  table_of items capacity = replicate (length items + 1) r.
Proof.
  intros Hrows. apply list_eq. intros i.
  destruct (decide (i <= length items)%nat) as [Hi|Hi].
  - rewrite table_of_lookup, Hrows by assumption.
    symmetry. apply lookup_replicate_2. lia.
  - rewrite !lookup_ge_None_2; [reflexivity| |];
      rewrite ?length_table_of, ?length_replicate; lia.
Qed.

Lemma cell_replicate (n : nat) (r : list jsval) (i : nat) (c : Z) :
  (i < n)%nat -> cell (replicate n r) i c = js_get r c.
Proof. intros Hi. unfold cell. rewrite lookup_replicate_2 by assumption. reflexivity. Qed.



(** X2. Capacity -1 is not rejected: for any items the call returns a table
    of [n + 1] empty rows, an [undefined] [bestValue] and no chosen id. *)
Theorem solveKnapsack_capacity_minus_one (items : list Item) :
  solveKnapsack items (-1) =
  Ok {| bestValue := JUndefined; chosenIds := [];
        table := replicate (length items + 1) [] |}.
Proof.
  unfold solveKnapsack. rewrite solve_eq by (lia || discriminate).
  unfold solution_of.
  rewrite (table_of_rows items (-1) []).
  - unfold picked.
    rewrite walk_no_change; [reflexivity | | lia].
    intros i Hi. rewrite !cell_replicate by lia. reflexivity.
  - intros i _. apply nil_length_inv. rewrite length_row_at. reflexivity.
Qed.

Lemma NoDup_Set_add_all (acc l : list string) :
  NoDup acc -> NoDup (Set_add_all acc l).
Proof.
  revert acc. induction l as [|x l IH]; intros acc Hacc; simpl; [assumption|].
  apply IH. case_bool_decide as Hx; [assumption|].
  apply NoDup_app. split; [assumption|]. split; [|apply NoDup_singleton].
  intros y Hy Hyx. apply list_elem_of_singleton in Hyx as ->. contradiction.
Qed.

Lemma NoDup_new_Set (l : list string) : NoDup (new_Set l).
Proof. apply NoDup_Set_add_all. apply NoDup_nil_2. Qed.




(** ** The optimum against the whole list *)











(** ** What the walk chooses *)









(** ** The backpack against the solution *)

Lemma fold_left_weight (l : list Item) (a : Z) :
  fold_left (fun s it => s + weight it) l a = a + total_weight l.
Proof.
  revert a. induction l as [|x l IH]; intros a; simpl; [lia|].
  rewrite IH. lia.
Qed.

Lemma fold_left_value (l : list Item) (a : Z) :
  fold_left (fun s it => s + value it) l a = a + total_value l.
Proof.
  revert a. induction l as [|x l IH]; intros a; simpl; [lia|].
  rewrite IH. lia.
Qed.

Lemma backpackWeight_selected (items : list Item) (pickedIds : list string) :
  backpackWeight items pickedIds = total_weight (selected pickedIds items).
Proof. unfold backpackWeight. rewrite fold_left_weight. reflexivity. Qed.

Lemma backpackValue_selected (items : list Item) (pickedIds : list string) :
  backpackValue items pickedIds = total_value (selected pickedIds items).
Proof. unfold backpackValue. rewrite fold_left_value. reflexivity. Qed.









(** ** The drop handlers *)

Lemma elem_of_Set_add (s : list string) (x y : string) :
  y ∈ Set_add s x <-> y = x \/ y ∈ s.
Proof.
  unfold Set_add. case_bool_decide as Hx.
  - split; [auto|]. intros [->|?]; assumption.
  - rewrite elem_of_app, list_elem_of_singleton. tauto.
Qed.



Section HandlerFacts.

Variable trim : string -> string.

Lemma elem_of_handleDropToBackpack (data : string) (s : list string) (y : string) :
  dropped_id trim data <> EmptyString ->
  y ∈ handleDropToBackpack trim data s <-> y = dropped_id trim data \/ y ∈ s.
Proof.
  intros Hx. unfold handleDropToBackpack. cbn zeta.
  rewrite bool_decide_eq_false_2 by assumption.
  rewrite elem_of_Set_add, elem_of_new_Set. reflexivity.
Qed.




(** X13. Dropping the same thing onto the backpack a second time changes
    nothing: an item is in the backpack at most once. *)
Theorem drop_to_backpack_twice (data : string) (pickedIds : list string) :
  handleDropToBackpack trim data (handleDropToBackpack trim data pickedIds)
  = handleDropToBackpack trim data pickedIds.
Proof.
  unfold handleDropToBackpack. cbn zeta.
  case_bool_decide as Hx; [reflexivity|].
  set (x := dropped_id trim data) in *.
  assert (Hnd : NoDup (Set_add (new_Set pickedIds) x)).
  { unfold Set_add. case_bool_decide as Hin; [apply NoDup_new_Set|].
    apply NoDup_app. split; [apply NoDup_new_Set|].
    split; [|apply NoDup_singleton].
    intros y Hy Hyx. apply list_elem_of_singleton in Hyx as ->. contradiction. }
  rewrite (new_Set_NoDup _ Hnd). unfold Set_add at 1.
  rewrite bool_decide_eq_true_2; [reflexivity|].
  apply elem_of_Set_add. left. reflexivity.
Qed.

(** X14. Dropping onto the backpack something that was not in it and then
    dropping the same thing onto the shelf gives back the [pickedIds] one
    started from. *)
Theorem drop_to_backpack_then_shelf (data : string) (pickedIds : list string) :
  NoDup pickedIds -> dropped_id trim data ∉ pickedIds ->
  handleDropToShelf trim data (handleDropToBackpack trim data pickedIds)
  = pickedIds.
Proof.
  intros Hnd Hnew. unfold handleDropToShelf, handleDropToBackpack. cbn zeta.
  set (x := dropped_id trim data) in *.
  case_bool_decide as Hx; [reflexivity|].
  rewrite (new_Set_NoDup _ Hnd). unfold Set_add.
  rewrite bool_decide_eq_false_2 by assumption.
  rewrite new_Set_NoDup.
  - unfold Set_delete. rewrite filter_app, filter_cons_False, filter_nil, app_nil_r
      by (intros H; apply H; reflexivity).
    clear Hnd. induction pickedIds as [|y l IH]; [reflexivity|].
    rewrite filter_cons_True.
    + f_equal. apply IH. intros H. apply Hnew. right. assumption.
    + intros ->. apply Hnew. left.
  - apply NoDup_app. split; [assumption|]. split; [|apply NoDup_singleton].
    intros y Hy Hyx. apply list_elem_of_singleton in Hyx as ->. contradiction.
Qed.

(** X15. The handler does not check what is dropped: a text that is the id
    of no item enters [pickedIds], and leaves [backpackWeight] and
    [backpackValue] as they were. *)
Theorem drop_unknown_id (items : list Item) (data : string) (pickedIds : list string) :
  dropped_id trim data <> EmptyString ->
  Forall (fun it => id it <> dropped_id trim data) items ->
  dropped_id trim data ∈ handleDropToBackpack trim data pickedIds /\
  backpackWeight items (handleDropToBackpack trim data pickedIds)
    = backpackWeight items pickedIds /\
  backpackValue items (handleDropToBackpack trim data pickedIds)
    = backpackValue items pickedIds.
Proof.
  intros Hx Hunknown.
  split; [apply elem_of_handleDropToBackpack; auto|].
  assert (Hsel : selected (handleDropToBackpack trim data pickedIds) items
                 = selected pickedIds items).
  { apply selected_ext. intros it Hit.
    rewrite elem_of_handleDropToBackpack by assumption.
    rewrite Forall_forall in Hunknown. specialize (Hunknown it Hit). tauto. }
  rewrite !backpackWeight_selected, !backpackValue_selected, Hsel. auto.
Qed.

End HandlerFacts.



Lemma drop_to_backpack_then_shelf_witness :
  handleDropToShelf (fun s => s) "b"
    (handleDropToBackpack (fun s => s) "b" ["a"; "c"]%string)
  = ["a"; "c"]%string.
Proof.
  apply (drop_to_backpack_then_shelf (fun s => s) "b" ["a"; "c"]%string);
    by_evaluation.
Defined.

Lemma drop_unknown_id_witness :
  dropped_id (fun s => s) "zz"
    ∈ handleDropToBackpack (fun s => s) "zz" ["a"%string] /\
  backpackWeight items1 (handleDropToBackpack (fun s => s) "zz" ["a"%string])
    = backpackWeight items1 ["a"%string] /\
  backpackValue items1 (handleDropToBackpack (fun s => s) "zz" ["a"%string])
    = backpackValue items1 ["a"%string].
Proof.
  apply (drop_unknown_id (fun s => s) items1 "zz" ["a"%string]).
  - discriminate.
  - repeat (apply Forall_cons_2; [discriminate|]). apply Forall_nil_2.
Defined.
